(** * Audit / explanation layer of SyrmaX: risk policy engine, explanation
    generator, dual-sink audit log and decision orchestrator.

    The Python modules of this layer ([core/events.py], [core/risk.py],
    [core/explain.py], [core/audit.py], [core/execution.py],
    [core/audit_integration.py]) are described by the layer's README but
    their code is not part of the sources at hand; every operation below is
    therefore modelled from the specification of the layer. *)

From Stdlib Require Import List String Bool Arith NArith Lia QArith.
Import ListNotations.

(** ** Event model (events.py) *)

Inductive Direction := BUY | SELL | HOLD.

Inductive Severity := INFO | WARNING | BLOCK.

Definition severity_rank (s : Severity) : nat :=
  match s with INFO => 0 | WARNING => 1 | BLOCK => 2 end.

Record Signal := mkSignal {
  sig_symbol : string;
  sig_strategy : string;
  sig_direction : Direction;
  sig_indicators : list (string * Q)
}.

Record RiskState := mkRiskState {
  leverage : Q;
  distance_to_liquidation_pct : Q;
  daily_loss_pct : Q;
  consecutive_losses : nat;
  proposed_slippage_bps : Q
}.

Record DecisionContext := mkContext {
  ctx_symbol : string;
  ctx_strategy : string;
  ctx_direction : Direction;
  ctx_indicators : list (string * Q);
  ctx_risk : RiskState;
  ctx_correlation_id : nat
}.

Definition mk_context (s : Signal) (rs : RiskState) (cid : nat) : DecisionContext :=
  mkContext (sig_symbol s) (sig_strategy s) (sig_direction s)
            (sig_indicators s) rs cid.

Record RiskVerdict := mkVerdict {
  rv_rule_id : string;
  rv_passed : bool;
  rv_severity : Severity;
  rv_message : string;
  rv_limit : Q;
  rv_observed : Q
}.

Record RiskChecked := mkRiskChecked {
  rc_verdicts : list RiskVerdict;
  rc_most_restrictive : option RiskVerdict;
  rc_overall_pass : bool
}.

Inductive QualityFlag := NORMAL | LOW_QUALITY.

Record ExplainCreated := mkExplain {
  ex_template_id : string;
  ex_text : string;
  ex_quality_score : Q;
  ex_flag : QualityFlag
}.

Record Decision := mkDecision {
  d_correlation_id : nat;
  d_approved : bool;
  d_driving : option RiskVerdict;
  d_explanation : option ExplainCreated;
  d_timestamp : N
}.

Inductive OrderStatus := SUBMITTED | FILLED | REJECTED.

Record OrderOutcome := mkOutcome {
  oc_status : OrderStatus;
  oc_order_id : string;
  oc_price : Q;
  oc_qty : Q;
  oc_reason : string
}.

Inductive EventType :=
  SignalGenerated | RiskCheckedEv | ExplainCreatedEv | DecisionEv
| OrderSubmitted | OrderFilled | OrderRejected.

Inductive Payload :=
| PSignal (s : Signal)
| PRisk (rc : RiskChecked)
| PExplain (ex : ExplainCreated)
| PDecision (d : Decision)
| POrder (o : OrderOutcome).

(** The envelope of every event; the event id is the pair of the
    correlation id and the position of the event in that decision's
    life-cycle, which makes it unique across decisions. *)
Record AuditEvent := mkEvent {
  ev_id : nat * nat;
  ev_correlation_id : nat;
  ev_timestamp : N;
  ev_symbol : string;
  ev_type : EventType;
  ev_payload : Payload
}.

(** ** Fallible evaluation: a small exception monad *)

Inductive Exc (A : Type) :=
| Ok (a : A)
| Raise (msg : string).
Arguments Ok {A} a.
Arguments Raise {A} msg.

Definition exc_bind {A B} (c : Exc A) (k : A -> Exc B) : Exc B :=
  match c with Ok a => k a | Raise m => Raise m end.

Notation "x <- c1 ;; c2" := (exc_bind c1 (fun x => c2))
  (at level 61, c1 at next level, right associativity).

(** ** Configuration (the AUDIT keys of TraderConfig) *)

Record Config := mkConfig {
  leverage_cap : Q;
  dist_to_liq_min : Q;
  daily_max_loss : Q;
  consecutive_loss_cooldown : nat;
  max_slippage_bps : Q;
  quality_threshold : Q
}.

(** The five rule thresholds listed in the README of the layer. The README
    gives the explanation quality threshold only as the label NORMAL, with
    no numeric value, so that threshold is left as an argument. *)
Definition default_config (quality_threshold : Q) : Config :=
  mkConfig 2 15 3 3 5 quality_threshold.

Definition qltb (x y : Q) : bool := negb (Qle_bool y x).

(** ** Risk policy engine (risk.py) *)

(** A rule: identifier, description, the severity class it produces and
    its (possibly raising) evaluation function. *)
Record RiskRule := mkRule {
  rule_id : string;
  rule_description : string;
  rule_severity : Severity;
  evaluate : DecisionContext -> Exc RiskVerdict
}.

(** Modelled from the spec: the default threshold rules of [risk.py]
    (leverage cap, distance to liquidation, daily loss, consecutive-loss
    cooldown, slippage). A passing check yields an INFO verdict, a breached
    check a verdict of the rule's severity class. *)
Definition threshold_verdict (id : string) (sev : Severity) (ok : bool)
    (msg : string) (limit observed : Q) : RiskVerdict :=
  if ok then mkVerdict id true INFO "ok" limit observed
  else mkVerdict id false sev msg limit observed.

Definition leverage_rule (cfg : Config) : RiskRule :=
  mkRule "leverage_cap" "leverage <= configured cap" BLOCK
    (fun ctx => let v := leverage (ctx_risk ctx) in
      Ok (threshold_verdict "leverage_cap" BLOCK (Qle_bool v (leverage_cap cfg))
            "leverage above cap" (leverage_cap cfg) v)).

Definition dist_to_liq_rule (cfg : Config) : RiskRule :=
  mkRule "dist_to_liq_min" "distance to liquidation >= configured minimum" BLOCK
    (fun ctx => let v := distance_to_liquidation_pct (ctx_risk ctx) in
      Ok (threshold_verdict "dist_to_liq_min" BLOCK (Qle_bool (dist_to_liq_min cfg) v)
            "too close to liquidation" (dist_to_liq_min cfg) v)).

Definition daily_loss_rule (cfg : Config) : RiskRule :=
  mkRule "daily_max_loss" "daily loss <= configured maximum" BLOCK
    (fun ctx => let v := daily_loss_pct (ctx_risk ctx) in
      Ok (threshold_verdict "daily_max_loss" BLOCK (Qle_bool v (daily_max_loss cfg))
            "daily loss limit reached" (daily_max_loss cfg) v)).

Definition cooldown_rule (cfg : Config) : RiskRule :=
  mkRule "consecutive_loss_cooldown" "consecutive losses < cooldown threshold" BLOCK
    (fun ctx => let n := consecutive_losses (ctx_risk ctx) in
      Ok (threshold_verdict "consecutive_loss_cooldown" BLOCK
            (n <? consecutive_loss_cooldown cfg)
            "consecutive-loss cooldown in effect"
            (inject_Z (Z.of_nat (consecutive_loss_cooldown cfg)))
            (inject_Z (Z.of_nat n)))).

Definition slippage_rule (cfg : Config) : RiskRule :=
  mkRule "max_slippage_bps" "slippage <= configured maximum (bps)" WARNING
    (fun ctx => let v := proposed_slippage_bps (ctx_risk ctx) in
      Ok (threshold_verdict "max_slippage_bps" WARNING (Qle_bool v (max_slippage_bps cfg))
            "slippage above maximum" (max_slippage_bps cfg) v)).

(** Declaration order of the default rule set. *)
Definition default_rules (cfg : Config) : list RiskRule :=
  [leverage_rule cfg; dist_to_liq_rule cfg; daily_loss_rule cfg;
   cooldown_rule cfg; slippage_rule cfg].

(** Modelled from the spec: the rule runner of [risk.py]; fail-closed,
    a raising rule becomes a BLOCK. *)
Definition failure_verdict (r : RiskRule) : RiskVerdict :=
  mkVerdict (rule_id r) false BLOCK
    (String.append "rule evaluation failure: " (rule_id r)) 0 0.

Definition run_rule (ctx : DecisionContext) (r : RiskRule) : RiskVerdict :=
  match evaluate r ctx with
  | Ok v => v
  | Raise _ => failure_verdict r
  end.

(** Restrictiveness: any failing verdict is above any passing one, then
    the severity order BLOCK > WARNING > INFO. *)
Definition restrictiveness (v : RiskVerdict) : nat :=
  (if rv_passed v then 0 else 3) + severity_rank (rv_severity v).

(** Modelled from the spec: the verdict reduction of [risk.py]. The
    running most-restrictive verdict is replaced only by a strictly more
    restrictive one, so ties keep the earlier (declared first) one. *)
Definition pick (best v : RiskVerdict) : RiskVerdict :=
  if restrictiveness best <? restrictiveness v then v else best.

Definition most_restrictive (vs : list RiskVerdict) : option RiskVerdict :=
  match vs with
  | [] => None
  | v :: rest => Some (fold_left pick rest v)
  end.

(** Modelled from the spec: [Evaluate(ctx) RiskChecked]. *)
Definition risk_evaluate (rules : list RiskRule) (ctx : DecisionContext)
    : RiskChecked :=
  let vs := map (run_rule ctx) rules in
  mkRiskChecked vs (most_restrictive vs) (forallb rv_passed vs).

(** ** Explanation generator (explain.py) *)

Record Template := mkTemplate {
  tpl_id : string;
  applies : DecisionContext -> Exc bool;
  render : DecisionContext -> Exc (string * Q)
}.

Definition quality_flag (cfg : Config) (q : Q) : QualityFlag :=
  if qltb q (quality_threshold cfg) then LOW_QUALITY else NORMAL.

Definition mk_explain (cfg : Config) (id txt : string) (q : Q) : ExplainCreated :=
  mkExplain id txt q (quality_flag cfg q).

Definition fallback_explain (cfg : Config) : ExplainCreated :=
  mk_explain cfg "generic_fallback"
    "signal generated; no narrative pattern matched" 0.

(** First template, in priority order, whose predicate holds. *)
Fixpoint select_template (tpls : list Template) (ctx : DecisionContext)
    : Exc (option Template) :=
  match tpls with
  | [] => Ok None
  | t :: ts =>
      b <- applies t ctx ;;
      if b then Ok (Some t) else select_template ts ctx
  end.

(** Modelled from the spec: [Generate(ctx) ExplainCreated] of [explain.py]. *)
Definition generate (cfg : Config) (tpls : list Template) (ctx : DecisionContext)
    : Exc ExplainCreated :=
  o <- select_template tpls ctx ;;
  match o with
  | None => Ok (fallback_explain cfg)
  | Some t =>
      r <- render t ctx ;;
      let (txt, q) := r in Ok (mk_explain cfg (tpl_id t) txt q)
  end.

(** ** Decision orchestrator (execution.py) *)

(** Modelled from the spec: a failing explanation generator is treated as
    a BLOCK, and the fallback narrative is recorded in its place. *)
Definition explain_fault_verdict : RiskVerdict :=
  mkVerdict "explanation_generator" false BLOCK
    "explanation evaluation failure" 0 0.

Definition option_list {A} (o : option A) : list A :=
  match o with Some a => [a] | None => [] end.

Definition explain_outcome (cfg : Config) (g : Exc ExplainCreated)
    : ExplainCreated * list RiskVerdict :=
  match g with
  | Ok e => (e, [])
  | Raise _ => (fallback_explain cfg, [explain_fault_verdict])
  end.

(** Most-restrictive-wins: the decision is a rejection exactly when the
    most restrictive verdict is a failing BLOCK. *)
Definition approval (mr : option RiskVerdict) : bool :=
  match mr with
  | None => true
  | Some v => rv_passed v || (severity_rank (rv_severity v) <? 2)
  end.

Definition mk_event (cid k : nat) (now : N) (sym : string) (t : EventType)
    (p : Payload) : AuditEvent :=
  mkEvent (cid, k) cid now sym t p.

(** Modelled from the spec: [Decide(signal, risk_state)], with the
    verdict of the caller's own risk manager [pre] (if any). Returns the
    decision and the events it emits, in emission order. The engine's
    verdicts come first in the reduction, then an explanation fault, then
    the pre-existing verdict. *)
Definition decide_core (cfg : Config) (rules : list RiskRule)
    (tpls : list Template) (sig : Signal) (rs : RiskState)
    (pre : option RiskVerdict) (cid : nat) (now : N) : Decision * list AuditEvent :=
  let ctx := mk_context sig rs cid in
  let rc := risk_evaluate rules ctx in
  let '(ex, fault) := explain_outcome cfg (generate cfg tpls ctx) in
  let mr := most_restrictive (rc_verdicts rc ++ fault ++ option_list pre) in
  let ok := approval mr in
  let d := mkDecision cid ok (if ok then None else mr)
             (if ok then Some ex else None) now in
  let sym := sig_symbol sig in
  (d, [mk_event cid 0 now sym SignalGenerated (PSignal sig);
       mk_event cid 1 now sym RiskCheckedEv (PRisk rc);
       mk_event cid 2 now sym ExplainCreatedEv (PExplain ex);
       mk_event cid 3 now sym DecisionEv (PDecision d)]).

Definition order_event_type (s : OrderStatus) : EventType :=
  match s with
  | SUBMITTED => OrderSubmitted
  | FILLED => OrderFilled
  | REJECTED => OrderRejected
  end.

(** [ReportOrderOutcome]: the k-th outcome reported for a decision. *)
Definition order_event (cid k : nat) (now : N) (sym : string) (o : OrderOutcome)
    : AuditEvent :=
  mk_event cid (4 + k) now sym (order_event_type (oc_status o)) (POrder o).

Fixpoint order_events (cid k : nat) (now : N) (sym : string) (os : list OrderOutcome)
    : list AuditEvent :=
  match os with
  | [] => []
  | o :: rest => order_event cid k now sym o :: order_events cid (S k) now sym rest
  end.

(** The whole life-cycle of one decision, in emission order. *)
Definition lifecycle (cfg : Config) (rules : list RiskRule)
    (tpls : list Template) (sig : Signal) (rs : RiskState)
    (pre : option RiskVerdict) (cid : nat) (now : N) (os : list OrderOutcome)
    : list AuditEvent :=
  snd (decide_core cfg rules tpls sig rs pre cid now)
  ++ order_events cid 0 now (sig_symbol sig) os.

(** ** Audit log store (audit.py) *)

Definition day_of (ts : N) : N := (ts / 86400)%N.

(** Modelled from the spec: the in-memory queue, the per-day sequential
    log (one file per calendar day) and the indexed store. *)
Record Store := mkStore {
  queue : list AuditEvent;
  seqlog : N -> list AuditEvent;
  indexed : list AuditEvent
}.

Definition empty_store : Store := mkStore [] (fun _ => []) [].

(** [Append]: enqueue only. *)
Definition append_event (e : AuditEvent) (st : Store) : Store :=
  mkStore (queue st ++ [e]) (seqlog st) (indexed st).

Definition append_all (es : list AuditEvent) (st : Store) : Store :=
  fold_left (fun s e => append_event e s) es st.

Definition append_line (sl : N -> list AuditEvent) (e : AuditEvent)
    : N -> list AuditEvent :=
  fun d => if N.eqb d (day_of (ev_timestamp e)) then sl d ++ [e] else sl d.

(** Modelled from the spec: one batch of the background writer of
    [audit.py]: the first [n] queued events are
    written to both sinks together; when the disk is unavailable nothing
    is written and the events stay queued. *)
Definition write_batch (disk_ok : bool) (n : nat) (st : Store) : Store :=
  if disk_ok then
    let batch := firstn n (queue st) in
    mkStore (skipn n (queue st)) (fold_left append_line batch (seqlog st))
            (indexed st ++ batch)
  else st.

(** [Flush]: write everything queued. *)
Definition flush (st : Store) : Store := write_batch true (List.length (queue st)) st.

(** [GetDecisionTrail]: the events of one correlation id, read from the
    indexed store in insertion order. *)
Definition get_decision_trail (cid : nat) (st : Store) : list AuditEvent :=
  filter (fun e => ev_correlation_id e =? cid) (indexed st).

Definition seq_count (d : N) (st : Store) : nat := List.length (seqlog st d).

Definition indexed_count (d : N) (st : Store) : nat :=
  List.length (filter (fun e => N.eqb (day_of (ev_timestamp e)) d) (indexed st)).

(** Sequential entry point: decide and enqueue the emitted events. *)
Definition decide (cfg : Config) (rules : list RiskRule) (tpls : list Template)
    (sig : Signal) (rs : RiskState) (pre : option RiskVerdict) (cid : nat)
    (now : N) (st : Store) : Decision * Store :=
  let (d, es) := decide_core cfg rules tpls sig rs pre cid now in
  (d, append_all es st).

(** ** Concurrent callers and the background writer *)

(** Each in-flight decision [c] still has [pending c] events to emit;
    callers and the writer interleave arbitrarily. *)
Record System := mkSystem {
  store : Store;
  pending : nat -> list AuditEvent
}.

Definition upd_pending (p : nat -> list AuditEvent) (c : nat)
    (l : list AuditEvent) : nat -> list AuditEvent :=
  fun c' => if c' =? c then l else p c'.

Inductive sys_step : System -> System -> Prop :=
| StepEmit : forall s c e rest,
    pending s c = e :: rest ->
    sys_step s (mkSystem (append_event e (store s)) (upd_pending (pending s) c rest))
| StepWrite : forall s disk_ok n,
    sys_step s (mkSystem (write_batch disk_ok n (store s)) (pending s)).

Inductive reachable (s0 : System) : System -> Prop :=
| reach_refl : reachable s0 s0
| reach_step : forall s1 s2, reachable s0 s1 -> sys_step s1 s2 -> reachable s0 s2.

Definition init_system (p0 : nat -> list AuditEvent) : System :=
  mkSystem empty_store p0.

(** Executable form of one [StepEmit] of caller [c]. *)
Definition emit_next (s : System) (c : nat) : System :=
  match pending s c with
  | e :: rest => mkSystem (append_event e (store s)) (upd_pending (pending s) c rest)
  | [] => s
  end.

Definition write_next (s : System) (disk_ok : bool) (n : nat) : System :=
  mkSystem (write_batch disk_ok n (store s)) (pending s).

(** ** Sample inputs (the scenarios of the specification) *)

Definition sig_btc : Signal := mkSignal "BTCUSDT" "trend_atr" BUY [("atr_ratio"%string, 2%Q)].

(** Scenario 1: every default limit respected. *)
Definition rs_ok : RiskState := mkRiskState (3 # 2) 40 1 0 2.
(** Scenario 2: leverage above the cap. *)
Definition rs_high_leverage : RiskState := mkRiskState 3 40 1 0 2.
(** Scenario 3: cooldown reached. *)
Definition rs_cooldown : RiskState := mkRiskState (3 # 2) 40 1 3 2.
(** Scenario 3 together with leverage above the cap. *)
Definition rs_cooldown_high_leverage : RiskState := mkRiskState 3 40 1 3 2.
(** Slippage above the maximum, every other limit respected. *)
Definition rs_slippage : RiskState := mkRiskState (3 # 2) 40 1 0 9.

(** A template that matches trend signals with an expanding ATR. *)
Definition trend_template : Template :=
  mkTemplate "trend_atr_v2"
    (fun ctx => Ok (match ctx_indicators ctx with
                    | (_, r) :: _ => qltb 1 r
                    | [] => false
                    end))
    (fun _ => Ok ("trend up, ATR expanded"%string, (4 # 5)%Q)).

(** A template whose predicate never matches. *)
Definition range_template : Template :=
  mkTemplate "range_revert_v1" (fun _ => Ok false) (fun _ => Ok ("range"%string, 1%Q)).

(** A rule whose evaluation raises. *)
Definition broken_rule : RiskRule :=
  mkRule "broken" "always raises" BLOCK (fun _ => Raise "ZeroDivisionError").

(** Two concurrent decisions, correlation ids 1 and 2. *)
Definition two_decisions : nat -> list AuditEvent :=
  fun c => if (c =? 1) || (c =? 2) then
             lifecycle (default_config 0) (default_rules (default_config 0)) []
               sig_btc rs_ok None c 0 []
           else [].

(** * Properties *)

(** ** The reduction of verdicts *)

Local Open Scope nat_scope.

Lemma restrictiveness_failing (v : RiskVerdict) :
  rv_passed v = false <-> 3 <= restrictiveness v.
Proof.
  unfold restrictiveness; destruct (rv_passed v), (rv_severity v);
    simpl; split; intro; try lia; congruence.
Qed.

Lemma rank_le_2 (v : RiskVerdict) : severity_rank (rv_severity v) <= 2.
Proof. destruct (rv_severity v); simpl; lia. Qed.

(** The running maximum of [pick]: it is the first verdict of maximal
    restrictiveness. *)
Lemma fold_pick_spec (rest : list RiskVerdict) (acc : RiskVerdict) :
  let w := fold_left pick rest acc in
  (forall x, In x (acc :: rest) -> restrictiveness x <= restrictiveness w) /\
  exists pre post, acc :: rest = pre ++ w :: post /\
    (forall x, In x pre -> restrictiveness x < restrictiveness w).
Proof.
  revert acc; induction rest as [|y ys IH]; intro acc; simpl.
  - split.
    + intros x [<-|[]]; lia.
    + exists [], []; split; [reflexivity | intros x []].
  - destruct (IH (pick acc y)) as [Hmax [pre [post [Heq Hpre]]]].
    set (w := fold_left pick ys (pick acc y)) in *.
    unfold pick in Hmax, Heq, Hpre.
    destruct (Nat.ltb_spec (restrictiveness acc) (restrictiveness y)) as [Hlt|Hge].
    + assert (Hy : restrictiveness y <= restrictiveness w) by (apply Hmax; left; auto).
      split.
      * intros x [<-|Hx]; [lia | apply Hmax; exact Hx].
      * exists (acc :: pre), post; split; [rewrite Heq; reflexivity|].
        intros x [<-|Hx]; [lia | apply Hpre; exact Hx].
    + split.
      * intros x [<-|[<-|Hx]].
        -- apply Hmax; left; reflexivity.
        -- assert (restrictiveness acc <= restrictiveness w) by (apply Hmax; left; auto).
           lia.
        -- apply Hmax; right; exact Hx.
      * destruct pre as [|p pre'].
        -- simpl in Heq; injection Heq as <- <-.
           exists [], (y :: ys); split; [reflexivity | intros x []].
        -- simpl in Heq; injection Heq as Hp0 Heq'; subst p.
           exists (acc :: y :: pre'), post; split; [rewrite Heq'; reflexivity|].
           assert (Hp : restrictiveness acc < restrictiveness w) by (apply Hpre; left; auto).
           intros x [<-|[<-|Hx]]; [lia | lia | apply Hpre; right; exact Hx].
Qed.

Lemma most_restrictive_spec (vs : list RiskVerdict) :
  vs <> [] ->
  exists w pre post,
    most_restrictive vs = Some w /\ vs = pre ++ w :: post /\
    (forall x, In x vs -> restrictiveness x <= restrictiveness w) /\
    (forall x, In x pre -> restrictiveness x < restrictiveness w).
Proof.
  destruct vs as [|v rest]; [congruence|]; intros _.
  destruct (fold_pick_spec rest v) as [Hmax [pre [post [Heq Hpre]]]].
  exists (fold_left pick rest v), pre, post; simpl; auto.
Qed.

(** A failing BLOCK anywhere makes the most restrictive verdict a failing
    BLOCK, hence a rejection. *)
Lemma most_restrictive_block (vs : list RiskVerdict) (b : RiskVerdict) :
  In b vs -> rv_passed b = false -> rv_severity b = BLOCK ->
  exists w, most_restrictive vs = Some w /\ rv_passed w = false /\
            rv_severity w = BLOCK.
Proof.
  intros Hin Hp Hs.
  destruct (most_restrictive_spec vs) as [w [pre [post [Hmr [_ [Hmax _]]]]]].
  { intros ->; destruct Hin. }
  exists w; split; [exact Hmr|].
  specialize (Hmax b Hin); unfold restrictiveness in Hmax.
  rewrite Hp, Hs in Hmax; simpl in Hmax.
  destruct (rv_passed w), (rv_severity w); simpl in Hmax; try lia; auto.
Qed.

Lemma approval_false_iff (mr : option RiskVerdict) :
  approval mr = false <->
  exists w, mr = Some w /\ rv_passed w = false /\ rv_severity w = BLOCK.
Proof.
  destruct mr as [w|]; simpl.
  - destruct (rv_passed w) eqn:Hp, (rv_severity w) eqn:Hs; simpl;
      split; intro H; try discriminate; eauto;
      destruct H as [w' [Hw [Hp' Hs']]]; injection Hw as <-; congruence.
  - split; [discriminate | intros [w [H _]]; discriminate].
Qed.

(** No failing BLOCK at all: the reduction approves. *)
Lemma approval_no_block (vs : list RiskVerdict) :
  (forall x, In x vs -> rv_passed x = false -> rv_severity x <> BLOCK) ->
  approval (most_restrictive vs) = true.
Proof.
  intro H; destruct (approval (most_restrictive vs)) eqn:Ha; [reflexivity|].
  apply approval_false_iff in Ha as [w [Hmr [Hp Hs]]].
  destruct vs as [|v rest]; [discriminate|].
  injection Hmr as Hw.
  destruct (fold_pick_spec rest v) as [_ [pre [post [Heq _]]]].
  rewrite Hw in Heq.
  exfalso; apply (H w); auto.
  rewrite Heq; apply in_or_app; right; left; reflexivity.
Qed.

Lemma in_split_app {A} (x : A) (pre post : list A) : In x (pre ++ x :: post).
Proof. apply in_or_app; right; left; reflexivity. Qed.

Ltac restr_cases v :=
  unfold restrictiveness in *; destruct (rv_passed v), (rv_severity v);
  simpl in *.

(** C2. Reduction of the Risk Policy Engine: the RiskChecked of a context
    lists one verdict per rule in declaration order, its overall pass is
    the AND of the verdicts' pass flags, and its most restrictive verdict
    is the highest-severity failing verdict (the highest-severity verdict
    when all pass), the first such in declaration order; in particular a
    failing BLOCK next to a WARNING makes the overall severity BLOCK. *)
Theorem risk_evaluate_most_restrictive_wins
    (rules : list RiskRule) (ctx : DecisionContext) :
  rules <> [] ->
  let rc := risk_evaluate rules ctx in
  let vs := rc_verdicts rc in
  vs = map (run_rule ctx) rules /\
  rc_overall_pass rc = forallb rv_passed vs /\
  exists w pre post,
    rc_most_restrictive rc = Some w /\
    vs = pre ++ w :: post /\
    ((exists x, In x vs /\ rv_passed x = false) ->
       rv_passed w = false /\
       forall x, In x vs -> rv_passed x = false ->
         severity_rank (rv_severity x) <= severity_rank (rv_severity w)) /\
    ((forall x, In x vs -> rv_passed x = true) ->
       forall x, In x vs ->
         severity_rank (rv_severity x) <= severity_rank (rv_severity w)) /\
    (forall x, In x pre -> rv_passed x = rv_passed w ->
       severity_rank (rv_severity x) < severity_rank (rv_severity w)) /\
    (forall x y, In x vs -> In y vs -> rv_severity x = WARNING ->
       rv_severity y = BLOCK -> rv_passed y = false -> rv_severity w = BLOCK).
Proof.
  intros Hne rc vs.
  assert (Hvs : vs <> []) by (subst vs rc; simpl; destruct rules; simpl; congruence).
  split; [reflexivity|]. split; [reflexivity|].
  destruct (most_restrictive_spec vs Hvs) as [w [pre [post [Hmr [Heq [Hmax Hpre]]]]]].
  exists w, pre, post.
  split; [exact Hmr|]. split; [exact Heq|].
  split; [|split; [|split]].
  - intros [x [Hx Hxp]].
    assert (Hwf : rv_passed w = false).
    { apply restrictiveness_failing.
      apply restrictiveness_failing in Hxp. specialize (Hmax x Hx). lia. }
    split; [exact Hwf|].
    intros y Hy Hyp. specialize (Hmax y Hy).
    unfold restrictiveness in Hmax; rewrite Hwf, Hyp in Hmax; simpl in Hmax; lia.
  - intros Hall x Hx.
    assert (Hw : rv_passed w = true) by (apply Hall; rewrite Heq; apply in_split_app).
    specialize (Hmax x Hx).
    unfold restrictiveness in Hmax; rewrite Hw, (Hall x Hx) in Hmax; simpl in Hmax; lia.
  - intros x Hx Hxw. specialize (Hpre x Hx).
    unfold restrictiveness in Hpre; rewrite Hxw in Hpre; lia.
  - intros x y _ Hy _ Hys Hyp. specialize (Hmax y Hy).
    unfold restrictiveness in Hmax; rewrite Hys, Hyp in Hmax; simpl in Hmax.
    restr_cases w; try lia; reflexivity.
Qed.

Lemma decide_core_unfold cfg rules tpls sig rs pre cid now :
  let ctx := mk_context sig rs cid in
  let rc := risk_evaluate rules ctx in
  let eo := explain_outcome cfg (generate cfg tpls ctx) in
  let mr := most_restrictive (rc_verdicts rc ++ snd eo ++ option_list pre) in
  let ok := approval mr in
  let d := mkDecision cid ok (if ok then None else mr)
             (if ok then Some (fst eo) else None) now in
  decide_core cfg rules tpls sig rs pre cid now =
  (d, [mk_event cid 0 now (sig_symbol sig) SignalGenerated (PSignal sig);
       mk_event cid 1 now (sig_symbol sig) RiskCheckedEv (PRisk rc);
       mk_event cid 2 now (sig_symbol sig) ExplainCreatedEv (PExplain (fst eo));
       mk_event cid 3 now (sig_symbol sig) DecisionEv (PDecision d)]).
Proof.
  unfold decide_core; simpl.
  destruct (explain_outcome cfg (generate cfg tpls (mk_context sig rs cid))).
  reflexivity.
Qed.

Lemma append_all_queue (es : list AuditEvent) (st : Store) :
  append_all es st = mkStore (queue st ++ es) (seqlog st) (indexed st).
Proof.
  revert st; induction es as [|e es IH]; intro st; simpl.
  - destruct st; simpl; rewrite app_nil_r; reflexivity.
  - unfold append_all in IH; rewrite IH; simpl; rewrite <- app_assoc; reflexivity.
Qed.

(** A verdict of a rule of the engine is a failing BLOCK whenever it has
    severity BLOCK and the rule only gives passing verdicts below BLOCK. *)
Definition rule_wf (r : RiskRule) : Prop :=
  forall ctx v, evaluate r ctx = Ok v -> rv_passed v = true -> rv_severity v <> BLOCK.

Lemma run_rule_block (ctx : DecisionContext) (r : RiskRule) :
  rule_wf r -> rv_severity (run_rule ctx r) = BLOCK ->
  rv_passed (run_rule ctx r) = false.
Proof.
  unfold run_rule; intros Hwf.
  destruct (evaluate r ctx) as [v|m] eqn:He; [|reflexivity].
  intro Hs; destruct (rv_passed v) eqn:Hp; [|reflexivity].
  exfalso; exact (Hwf ctx v He Hp Hs).
Qed.

Lemma threshold_verdict_wf id sev ok msg limit obs :
  rv_passed (threshold_verdict id sev ok msg limit obs) = true ->
  rv_severity (threshold_verdict id sev ok msg limit obs) <> BLOCK.
Proof. destruct ok; simpl; congruence. Qed.

Lemma default_rules_wf (cfg : Config) : Forall rule_wf (default_rules cfg).
Proof.
  repeat constructor; intros ctx v He; simpl in He; injection He as <-;
    apply threshold_verdict_wf.
Qed.

(** C1. For rules that only pass below BLOCK (the default rule set is
    such), an approved Decision has every verdict of its RiskChecked event
    strictly below BLOCK: a BLOCK verdict forces a rejection. *)
Theorem decide_approved_no_block cfg rules tpls sig rs pre cid now :
  Forall rule_wf rules ->
  d_approved (fst (decide_core cfg rules tpls sig rs pre cid now)) = true ->
  forall e rc, In e (snd (decide_core cfg rules tpls sig rs pre cid now)) ->
  ev_payload e = PRisk rc ->
  forall v, In v (rc_verdicts rc) ->
  severity_rank (rv_severity v) < severity_rank BLOCK.
Proof.
  intros Hwf Happ e rc Hin Hpay v Hv.
  rewrite decide_core_unfold in Happ, Hin; cbv zeta in Happ, Hin.
  cbn [fst snd d_approved In] in Happ, Hin.
  assert (Hrc : rc = risk_evaluate rules (mk_context sig rs cid)).
  { destruct Hin as [<-|[<-|[<-|[<-|[]]]]]; simpl in Hpay; congruence. }
  subst rc.
  simpl in Hv. apply in_map_iff in Hv as [r [<- Hr]].
  destruct (rv_severity (run_rule (mk_context sig rs cid) r)) eqn:Hs;
    simpl; try lia.
  exfalso.
  assert (Hp := run_rule_block (mk_context sig rs cid) r
                  (proj1 (Forall_forall _ _) Hwf r Hr) Hs).
  destruct (most_restrictive_block
              (rc_verdicts (risk_evaluate rules (mk_context sig rs cid))
               ++ snd (explain_outcome cfg (generate cfg tpls (mk_context sig rs cid)))
               ++ option_list pre)
              (run_rule (mk_context sig rs cid) r)) as [w [Hmr [Hwp Hws]]].
  { apply in_or_app; left; apply in_map; exact Hr. }
  { exact Hp. }
  { exact Hs. }
  rewrite Hmr in Happ; destruct (approval (Some w)) eqn:Ha; [|discriminate].
  simpl in Ha; rewrite Hwp, Hws in Ha; discriminate.
Qed.

Lemma decide_eq cfg rules tpls sig rs pre cid now st :
  decide cfg rules tpls sig rs pre cid now st =
  (fst (decide_core cfg rules tpls sig rs pre cid now),
   append_all (snd (decide_core cfg rules tpls sig rs pre cid now)) st).
Proof. unfold decide; destruct (decide_core _ _ _ _ _ _ _ _); reflexivity. Qed.

(** C3. Fail-closed: a rule whose evaluation raises yields the BLOCK verdict
    "rule evaluation failure: <rule id>" in the RiskChecked event, the
    pipeline still emits its four events (the Decision last) and the
    Decision, returned as a value, is a rejection. *)
Theorem decide_rule_failure_fail_closed cfg rules tpls sig rs pre cid now st r m :
  In r rules -> evaluate r (mk_context sig rs cid) = Raise m ->
  let rc := risk_evaluate rules (mk_context sig rs cid) in
  let res := decide cfg rules tpls sig rs pre cid now st in
  In (failure_verdict r) (rc_verdicts rc) /\
  rv_rule_id (failure_verdict r) = rule_id r /\
  rv_passed (failure_verdict r) = false /\
  rv_severity (failure_verdict r) = BLOCK /\
  rv_message (failure_verdict r) =
    String.append "rule evaluation failure: "%string (rule_id r) /\
  d_approved (fst res) = false /\
  exists evs, queue (snd res) = queue st ++ evs /\
    map ev_type evs = [SignalGenerated; RiskCheckedEv; ExplainCreatedEv; DecisionEv] /\
    In (mk_event cid 1 now (sig_symbol sig) RiskCheckedEv (PRisk rc)) evs /\
    In (mk_event cid 3 now (sig_symbol sig) DecisionEv (PDecision (fst res))) evs.
Proof.
  intros Hr He rc res.
  assert (Hin : In (failure_verdict r) (rc_verdicts rc)).
  { subst rc; simpl. replace (failure_verdict r) with (run_rule (mk_context sig rs cid) r).
    - apply in_map; exact Hr.
    - unfold run_rule; rewrite He; reflexivity. }
  do 5 (split; [first [exact Hin | reflexivity]|]).
  subst res; rewrite decide_eq, decide_core_unfold; cbv zeta.
  cbn [fst snd].
  split.
  - subst rc.
    destruct (most_restrictive_block
               (rc_verdicts (risk_evaluate rules (mk_context sig rs cid))
                ++ snd (explain_outcome cfg (generate cfg tpls (mk_context sig rs cid)))
                ++ option_list pre) (failure_verdict r)) as [w [Hmr [Hwp Hws]]];
      [apply in_or_app; left; exact Hin | reflexivity | reflexivity |].
    cbn [d_approved]; rewrite Hmr; simpl; rewrite Hwp, Hws; reflexivity.
  - eexists; split; [rewrite append_all_queue; reflexivity|].
    split; [reflexivity|]. split; simpl; auto.
Qed.

Lemma restrictiveness_le_5 (v : RiskVerdict) : restrictiveness v <= 5.
Proof. restr_cases v; lia. Qed.

Lemma fold_pick_stays (l : list RiskVerdict) (acc : RiskVerdict) :
  (forall x, In x l -> restrictiveness x <= restrictiveness acc) ->
  fold_left pick l acc = acc.
Proof.
  revert acc; induction l as [|y ys IH]; intros acc H; simpl; [reflexivity|].
  unfold pick at 2.
  destruct (Nat.ltb_spec (restrictiveness acc) (restrictiveness y)) as [Hlt|_].
  - specialize (H y (or_introl eq_refl)); lia.
  - apply IH; intros x Hx; apply H; right; exact Hx.
Qed.

Lemma fold_pick_in (l : list RiskVerdict) (acc : RiskVerdict) :
  In (fold_left pick l acc) (acc :: l).
Proof.
  revert acc; induction l as [|y ys IH]; intro acc; simpl; [left; reflexivity|].
  destruct (IH (pick acc y)) as [Heq|Hin]; [|right; right; exact Hin].
  rewrite <- Heq; unfold pick.
  destruct (restrictiveness acc <? restrictiveness y); simpl; auto.
Qed.

(** The first verdict that is strictly above everything before it and at
    least everything after it is the most restrictive one. *)
Lemma most_restrictive_unique (vs pre post : list RiskVerdict) (w : RiskVerdict) :
  vs = pre ++ w :: post ->
  (forall x, In x pre -> restrictiveness x < restrictiveness w) ->
  (forall x, In x post -> restrictiveness x <= restrictiveness w) ->
  most_restrictive vs = Some w.
Proof.
  intros -> Hpre Hpost.
  destruct pre as [|v pre']; simpl.
  - f_equal; apply fold_pick_stays; exact Hpost.
  - f_equal. rewrite fold_left_app; simpl.
    assert (Ha : restrictiveness (fold_left pick pre' v) < restrictiveness w)
      by (apply Hpre, fold_pick_in).
    unfold pick at 2.
    destruct (Nat.ltb_spec (restrictiveness (fold_left pick pre' v)) (restrictiveness w));
      [|lia].
    apply fold_pick_stays; exact Hpost.
Qed.

Lemma Qle_bool_false (x y : Q) : (y < x)%Q -> Qle_bool x y = false.
Proof.
  intro H; destruct (Qle_bool x y) eqn:E; [|reflexivity].
  apply Qle_bool_iff in E; exfalso; exact (Qlt_not_le _ _ H E).
Qed.

(** The verdicts of the default rule set, in declaration order. *)
Lemma default_verdicts (cfg : Config) (sig : Signal) (rs : RiskState) (cid : nat) :
  rc_verdicts (risk_evaluate (default_rules cfg) (mk_context sig rs cid)) =
  [threshold_verdict "leverage_cap" BLOCK (Qle_bool (leverage rs) (leverage_cap cfg))
     "leverage above cap" (leverage_cap cfg) (leverage rs);
   threshold_verdict "dist_to_liq_min" BLOCK
     (Qle_bool (dist_to_liq_min cfg) (distance_to_liquidation_pct rs))
     "too close to liquidation" (dist_to_liq_min cfg) (distance_to_liquidation_pct rs);
   threshold_verdict "daily_max_loss" BLOCK (Qle_bool (daily_loss_pct rs) (daily_max_loss cfg))
     "daily loss limit reached" (daily_max_loss cfg) (daily_loss_pct rs);
   threshold_verdict "consecutive_loss_cooldown" BLOCK
     (consecutive_losses rs <? consecutive_loss_cooldown cfg)
     "consecutive-loss cooldown in effect"
     (inject_Z (Z.of_nat (consecutive_loss_cooldown cfg)))
     (inject_Z (Z.of_nat (consecutive_losses rs)));
   threshold_verdict "max_slippage_bps" WARNING
     (Qle_bool (proposed_slippage_bps rs) (max_slippage_bps cfg))
     "slippage above maximum" (max_slippage_bps cfg) (proposed_slippage_bps rs)].
Proof. reflexivity. Qed.

(** C4. With the default rule set, leverage above the configured cap
    rejects the signal, and the driving verdict is the leverage rule's
    failing BLOCK. *)
Theorem decide_leverage_above_cap cfg tpls sig rs pre cid now :
  (leverage_cap cfg < leverage rs)%Q ->
  let d := fst (decide_core cfg (default_rules cfg) tpls sig rs pre cid now) in
  d_approved d = false /\
  exists v, d_driving d = Some v /\ rv_rule_id v = "leverage_cap"%string /\
            rv_severity v = BLOCK /\ rv_passed v = false.
Proof.
  intros Hlt d; subst d.
  rewrite decide_core_unfold; cbv zeta; cbn [fst d_approved d_driving].
  rewrite default_verdicts, (Qle_bool_false _ _ Hlt).
  set (vl := threshold_verdict "leverage_cap" BLOCK false "leverage above cap"
               (leverage_cap cfg) (leverage rs)).
  match goal with |- context [most_restrictive ?l] =>
    assert (Hmr : most_restrictive l = Some vl) end.
  { eapply (most_restrictive_unique _ []); [reflexivity | intros x [] |].
    intros x _; apply restrictiveness_le_5. }
  rewrite Hmr; simpl.
  split; [reflexivity|]. exists vl; repeat split.
Qed.

Lemma Qle_bool_true (x y : Q) : (x <= y)%Q -> Qle_bool x y = true.
Proof. apply Qle_bool_iff. Qed.

(** The first failing BLOCK of a list, with nothing as restrictive before it. *)
Lemma first_block_split (l : list RiskVerdict) (b : RiskVerdict) :
  In b l -> rv_passed b = false -> rv_severity b = BLOCK ->
  exists pre v post, l = pre ++ v :: post /\
    rv_passed v = false /\ rv_severity v = BLOCK /\
    (forall x, In x pre -> restrictiveness x < 5).
Proof.
  intros Hin Hp Hs; induction l as [|a l IH]; [destruct Hin|].
  destruct (rv_passed a) eqn:Hap, (rv_severity a) eqn:Has;
    try (exists [], a, l; split; [reflexivity|]; split; [exact Hap|];
         split; [exact Has | intros x []]).
  all: destruct Hin as [<-|Hin]; [congruence|];
    destruct (IH Hin) as [pre [v [post [Heq [Hvp [Hvs Hpre]]]]]];
    exists (a :: pre), v, post; rewrite Heq; split; [reflexivity|];
    split; [exact Hvp|]; split; [exact Hvs|];
    intros x [<-|Hx]; [unfold restrictiveness; rewrite Hap, Has; simpl; lia
                      | apply Hpre; exact Hx].
Qed.

(** C5 (as stated). With leverage also above the cap, the cooldown does
    reject the signal but the driving verdict is the leverage rule's, the
    first BLOCK in declaration order. *)
Lemma decide_cooldown_driving_counterexample :
  let d := fst (decide_core (default_config 0) (default_rules (default_config 0)) []
                  sig_btc rs_cooldown_high_leverage None 1 0) in
  consecutive_loss_cooldown (default_config 0) <= consecutive_losses rs_cooldown_high_leverage /\
  d_approved d = false /\
  option_map rv_rule_id (d_driving d) = Some "leverage_cap"%string /\
  option_map rv_rule_id (d_driving d) <> Some "consecutive_loss_cooldown"%string.
Proof. vm_compute. split; [lia|]. split; [reflexivity|]. split; [reflexivity|]. congruence. Qed.

(** C5 (amended). With the default rule set, a consecutive-loss count at or
    above the cooldown threshold rejects the signal whatever the other
    values, the RiskChecked event holds the cooldown rule's failing BLOCK
    verdict, and that verdict drives the decision whenever no rule
    declared before it (leverage, distance to liquidation, daily loss)
    blocks too; in general the driving verdict is the first failing BLOCK
    of the RiskChecked event in declaration order. *)
Theorem decide_cooldown_reached cfg tpls sig rs pre cid now :
  consecutive_loss_cooldown cfg <= consecutive_losses rs ->
  let d := fst (decide_core cfg (default_rules cfg) tpls sig rs pre cid now) in
  d_approved d = false /\
  (exists v, In v (rc_verdicts (risk_evaluate (default_rules cfg) (mk_context sig rs cid))) /\
     rv_rule_id v = "consecutive_loss_cooldown"%string /\
     rv_passed v = false /\ rv_severity v = BLOCK) /\
  ((leverage rs <= leverage_cap cfg)%Q ->
   (dist_to_liq_min cfg <= distance_to_liquidation_pct rs)%Q ->
   (daily_loss_pct rs <= daily_max_loss cfg)%Q ->
   exists v, d_driving d = Some v /\
     rv_rule_id v = "consecutive_loss_cooldown"%string /\ rv_severity v = BLOCK) /\
  (exists pre1 v post,
     rc_verdicts (risk_evaluate (default_rules cfg) (mk_context sig rs cid)) =
       pre1 ++ v :: post /\
     rv_passed v = false /\ rv_severity v = BLOCK /\
     (forall x, In x pre1 -> rv_passed x = true \/ rv_severity x <> BLOCK) /\
     d_driving d = Some v).
Proof.
  intros Hge d; subst d.
  assert (Hb : (consecutive_losses rs <? consecutive_loss_cooldown cfg) = false)
    by (apply Nat.ltb_ge; exact Hge).
  set (vc := threshold_verdict "consecutive_loss_cooldown" BLOCK false
               "consecutive-loss cooldown in effect"
               (inject_Z (Z.of_nat (consecutive_loss_cooldown cfg)))
               (inject_Z (Z.of_nat (consecutive_losses rs)))).
  assert (Hin : In vc (rc_verdicts (risk_evaluate (default_rules cfg) (mk_context sig rs cid)))).
  { rewrite default_verdicts, Hb; simpl; auto 6. }
  split; [|split; [|split]].
  - rewrite decide_core_unfold; cbv zeta; cbn [fst d_approved].
    destruct (most_restrictive_block
               (rc_verdicts (risk_evaluate (default_rules cfg) (mk_context sig rs cid))
                ++ snd (explain_outcome cfg (generate cfg tpls (mk_context sig rs cid)))
                ++ option_list pre) vc) as [w [Hmr [Hwp Hws]]];
      [apply in_or_app; left; exact Hin | reflexivity | reflexivity |].
    rewrite Hmr; simpl; rewrite Hwp, Hws; reflexivity.
  - exists vc; repeat split; exact Hin.
  - intros Hl Hd Hdl.
    rewrite decide_core_unfold; cbv zeta; cbn [fst d_driving].
    rewrite default_verdicts, Hb, (Qle_bool_true _ _ Hl), (Qle_bool_true _ _ Hd),
      (Qle_bool_true _ _ Hdl).
    fold vc.
    match goal with |- context [most_restrictive ?l] =>
      assert (Hmr : most_restrictive l = Some vc) end.
    { eapply (most_restrictive_unique _ [_; _; _]); [reflexivity| |].
      - intros x [<-|[<-|[<-|[]]]]; vm_compute; lia.
      - intros x _; apply restrictiveness_le_5. }
    rewrite Hmr; simpl.
    exists vc; repeat split.
  - destruct (first_block_split _ vc Hin eq_refl eq_refl)
      as [pre1 [v [post [Hsplit [Hvp [Hvs Hpre1]]]]]].
    exists pre1, v, post.
    split; [exact Hsplit|]. split; [exact Hvp|]. split; [exact Hvs|].
    split.
    + intros x Hx; specialize (Hpre1 x Hx); restr_cases x;
        first [left; reflexivity | right; discriminate | lia].
    + rewrite decide_core_unfold; cbv zeta; cbn [fst d_driving].
      rewrite Hsplit.
      match goal with |- context [most_restrictive ((_ ++ _ :: _) ++ ?tl)] =>
        assert (Hmr : most_restrictive ((pre1 ++ v :: post) ++ tl) = Some v) end.
      { assert (Hv5 : restrictiveness v = 5)
          by (unfold restrictiveness; rewrite Hvp, Hvs; reflexivity).
        eapply (most_restrictive_unique _ pre1 (post ++ _));
          [rewrite <- app_assoc; reflexivity | rewrite Hv5; exact Hpre1 |].
        intros x _; rewrite Hv5; apply restrictiveness_le_5. }
      rewrite Hmr; simpl; rewrite Hvp, Hvs; reflexivity.
Qed.

(** C6. With the default rule set, a slippage above the maximum while
    every other rule (and the caller's own verdict, if any) passes and the
    explanation generator completes: the slippage rule's failing WARNING
    verdict is recorded in the queued RiskChecked event and the decision is
    still an approval. *)
Theorem decide_slippage_warning_only cfg tpls sig rs pre cid now st ex :
  (max_slippage_bps cfg < proposed_slippage_bps rs)%Q ->
  (leverage rs <= leverage_cap cfg)%Q ->
  (dist_to_liq_min cfg <= distance_to_liquidation_pct rs)%Q ->
  (daily_loss_pct rs <= daily_max_loss cfg)%Q ->
  consecutive_losses rs < consecutive_loss_cooldown cfg ->
  (forall v, pre = Some v -> rv_passed v = true) ->
  generate cfg tpls (mk_context sig rs cid) = Ok ex ->
  let res := decide cfg (default_rules cfg) tpls sig rs pre cid now st in
  d_approved (fst res) = true /\
  exists rc v,
    In (mk_event cid 1 now (sig_symbol sig) RiskCheckedEv (PRisk rc)) (queue (snd res)) /\
    In v (rc_verdicts rc) /\ rv_rule_id v = "max_slippage_bps"%string /\
    rv_passed v = false /\ rv_severity v = WARNING.
Proof.
  intros Hs Hl Hd Hdl Hc Hpre Hg res; subst res.
  rewrite decide_eq, decide_core_unfold; cbv zeta; cbn [fst snd d_approved].
  rewrite append_all_queue; cbn [queue].
  rewrite Hg; cbn [explain_outcome snd].
  split.
  - apply approval_no_block.
    rewrite default_verdicts, (Qle_bool_true _ _ Hl), (Qle_bool_true _ _ Hd),
      (Qle_bool_true _ _ Hdl), (Qle_bool_false _ _ Hs).
    replace (consecutive_losses rs <? consecutive_loss_cooldown cfg) with true
      by (symmetry; apply Nat.ltb_lt; exact Hc).
    intros x Hx Hxp.
    destruct (in_app_or _ _ _ Hx) as [Hx'|Hx'].
    + simpl in Hx'; destruct Hx' as [<-|[<-|[<-|[<-|[<-|[]]]]]];
        simpl; simpl in Hxp; congruence.
    + destruct pre as [v|]; simpl in Hx'; [|destruct Hx'].
      destruct Hx' as [<-|[]]; rewrite (Hpre v eq_refl) in Hxp; discriminate.
  - eexists (risk_evaluate (default_rules cfg) (mk_context sig rs cid)).
    exists (threshold_verdict "max_slippage_bps" WARNING false "slippage above maximum"
         (max_slippage_bps cfg) (proposed_slippage_bps rs)).
    split; [apply in_or_app; right; simpl; auto|].
    rewrite default_verdicts, (Qle_bool_false _ _ Hs).
    split; [simpl; auto 6|]. repeat split.
Qed.

Lemma select_template_none (tpls : list Template) (ctx : DecisionContext) :
  (forall t, In t tpls -> applies t ctx = Ok false) ->
  select_template tpls ctx = Ok None.
Proof.
  induction tpls as [|t ts IH]; intro H; simpl; [reflexivity|].
  rewrite (H t (or_introl eq_refl)); simpl.
  apply IH; intros t' Ht'; apply H; right; exact Ht'.
Qed.

Lemma flush_spec (st : Store) :
  queue (flush st) = [] /\ indexed (flush st) = indexed st ++ queue st.
Proof.
  unfold flush, write_batch; simpl.
  rewrite firstn_all, skipn_all; split; reflexivity.
Qed.

(** C7. When no template's predicate matches, Generate returns the generic
    fallback narrative with quality score 0, and after the pipeline's events
    are flushed that ExplainCreated event is in the decision trail of the
    correlation id. *)
Theorem generate_fallback_persisted cfg rules tpls sig rs pre cid now st :
  (forall t, In t tpls -> applies t (mk_context sig rs cid) = Ok false) ->
  generate cfg tpls (mk_context sig rs cid) = Ok (fallback_explain cfg) /\
  ex_template_id (fallback_explain cfg) = "generic_fallback"%string /\
  ex_text (fallback_explain cfg) =
    "signal generated; no narrative pattern matched"%string /\
  ex_quality_score (fallback_explain cfg) = 0%Q /\
  In (mk_event cid 2 now (sig_symbol sig) ExplainCreatedEv (PExplain (fallback_explain cfg)))
     (get_decision_trail cid (flush (snd (decide cfg rules tpls sig rs pre cid now st)))).
Proof.
  intro H.
  assert (Hg : generate cfg tpls (mk_context sig rs cid) = Ok (fallback_explain cfg)).
  { unfold generate; rewrite (select_template_none _ _ H); reflexivity. }
  do 4 (split; [first [exact Hg | reflexivity]|]).
  unfold get_decision_trail; apply filter_In; split; [|apply Nat.eqb_refl].
  rewrite (proj2 (flush_spec _)), decide_eq, decide_core_unfold; cbv zeta.
  cbn [snd]; rewrite append_all_queue; cbn [indexed queue].
  rewrite Hg; cbn [explain_outcome fst].
  apply in_or_app; right; apply in_or_app; right; simpl; auto.
Qed.

(** ** Concurrent emission and the two sinks *)

Lemma emit_next_step (s : System) (c : nat) :
  pending s c <> [] -> sys_step s (emit_next s c).
Proof.
  unfold emit_next; destruct (pending s c) as [|e rest] eqn:Hp; [congruence|].
  intros _; apply StepEmit; exact Hp.
Qed.

Lemma write_next_step (s : System) (disk_ok : bool) (n : nat) :
  sys_step s (write_next s disk_ok n).
Proof. apply StepWrite. Qed.

Definition day_count (d : N) (l : list AuditEvent) : nat :=
  List.length (filter (fun e => N.eqb (day_of (ev_timestamp e)) d) l).

Lemma fold_append_line_count (batch : list AuditEvent) :
  forall (sl : N -> list AuditEvent) (idx : list AuditEvent),
  (forall d, List.length (sl d) = day_count d idx) ->
  forall d, List.length (fold_left append_line batch sl d) = day_count d (idx ++ batch).
Proof.
  induction batch as [|e b IH]; intros sl idx H d; simpl.
  - rewrite app_nil_r; apply H.
  - replace (idx ++ e :: b) with ((idx ++ [e]) ++ b) by (rewrite <- app_assoc; reflexivity).
    apply IH. intro d'.
    specialize (H d'); unfold append_line, day_count in *; rewrite filter_app, length_app.
    simpl; rewrite N.eqb_sym.
    destruct (N.eqb (day_of (ev_timestamp e)) d'); simpl;
      rewrite ?length_app, H; simpl; lia.
Qed.

Lemma write_batch_reconciled (disk_ok : bool) (n : nat) (st : Store) :
  (forall d, seq_count d st = indexed_count d st) ->
  forall d, seq_count d (write_batch disk_ok n st) = indexed_count d (write_batch disk_ok n st).
Proof.
  intros H d; unfold write_batch; destruct disk_ok; [|apply H].
  unfold seq_count, indexed_count; simpl.
  apply (fold_append_line_count _ (seqlog st) (indexed st)); exact H.
Qed.

(** C9. Reconciliation: in every state reachable by concurrent emissions
    and batch writes (successful or failed), each calendar day has as many
    lines in its sequential-log file as it has records in the indexed
    store; in particular so for a completed day once the queue is flushed. *)
Theorem reconciliation_invariant (p0 : nat -> list AuditEvent) (s : System) :
  reachable (init_system p0) s ->
  forall d, seq_count d (store s) = indexed_count d (store s).
Proof.
  induction 1 as [|s1 s2 _ IH Hstep].
  - intro d; reflexivity.
  - destruct Hstep as [s c e rest _ | s disk_ok n]; simpl.
    + intro d; apply IH.
    + apply write_batch_reconciled; exact IH.
Qed.

Definition cid_filter (c : nat) (l : list AuditEvent) : list AuditEvent :=
  filter (fun e => ev_correlation_id e =? c) l.

(** Everything persisted or queued for [c], followed by what [c] has yet
    to emit, is [c]'s emission sequence. *)
Definition trail_invariant (p0 : nat -> list AuditEvent) (s : System) : Prop :=
  forall c,
    (forall e, In e (pending s c) -> ev_correlation_id e = c) /\
    cid_filter c (indexed (store s) ++ queue (store s)) ++ pending s c = p0 c.

Lemma trail_invariant_init (p0 : nat -> list AuditEvent) :
  (forall c e, In e (p0 c) -> ev_correlation_id e = c) ->
  trail_invariant p0 (init_system p0).
Proof. intros H c; split; [apply H | reflexivity]. Qed.

Lemma trail_invariant_step (p0 : nat -> list AuditEvent) (s1 s2 : System) :
  trail_invariant p0 s1 -> sys_step s1 s2 -> trail_invariant p0 s2.
Proof.
  intros Hinv Hstep c.
  destruct Hstep as [s c' e rest Hp | s disk_ok n]; simpl.
  - destruct (Hinv c') as [Htag' Heq'].
    assert (He : ev_correlation_id e = c') by (apply Htag'; rewrite Hp; left; reflexivity).
    destruct (Hinv c) as [Htag Heq].
    unfold upd_pending; destruct (Nat.eqb_spec c c') as [->|Hne].
    + split; [intros x Hx; apply Htag'; rewrite Hp; right; exact Hx|].
      rewrite <- Heq', Hp; unfold cid_filter.
      rewrite app_assoc, filter_app; simpl; rewrite He, Nat.eqb_refl.
      rewrite <- app_assoc; reflexivity.
    + split; [exact Htag|].
      rewrite <- Heq; unfold cid_filter.
      rewrite app_assoc, filter_app; simpl.
      destruct (Nat.eqb_spec (ev_correlation_id e) c); [congruence|].
      rewrite app_nil_r; reflexivity.
  - destruct (Hinv c) as [Htag Heq]; split; [exact Htag|].
    rewrite <- Heq; unfold write_batch; destruct disk_ok; simpl; [|reflexivity].
    rewrite <- app_assoc, firstn_skipn; reflexivity.
Qed.

Lemma order_events_spec (cid k : nat) (now : N) (sym : string) (os : list OrderOutcome) :
  map ev_type (order_events cid k now sym os) =
    map (fun o => order_event_type (oc_status o)) os /\
  forall e, In e (order_events cid k now sym os) -> ev_correlation_id e = cid.
Proof.
  revert k; induction os as [|o os IH]; intro k; simpl.
  - split; [reflexivity | intros e []].
  - destruct (IH (S k)) as [H1 H2]; split; [f_equal; exact H1|].
    intros e [<-|He]; [reflexivity | apply H2; exact He].
Qed.

Lemma lifecycle_spec cfg rules tpls sig rs pre cid now os :
  map ev_type (lifecycle cfg rules tpls sig rs pre cid now os) =
    [SignalGenerated; RiskCheckedEv; ExplainCreatedEv; DecisionEv] ++
    map (fun o => order_event_type (oc_status o)) os /\
  forall e, In e (lifecycle cfg rules tpls sig rs pre cid now os) ->
    ev_correlation_id e = cid.
Proof.
  unfold lifecycle; rewrite decide_core_unfold; cbv zeta; cbn [snd].
  destruct (order_events_spec cid 0 now (sig_symbol sig) os) as [H1 H2].
  split; [simpl; rewrite H1; reflexivity|].
  intros e He; simpl in He.
  destruct He as [<-|[<-|[<-|[<-|He]]]]; try reflexivity; apply H2; exact He.
Qed.

Lemma two_decisions_tagged :
  forall c e, In e (two_decisions c) -> ev_correlation_id e = c.
Proof.
  intros c e; unfold two_decisions.
  destruct ((c =? 1) || (c =? 2)); [|intros []].
  apply lifecycle_spec.
Qed.

Definition sched_1_then_2 : System :=
  write_next (emit_next (emit_next (init_system two_decisions) 1) 2) true 2.

Definition sched_2_then_1 : System :=
  write_next (emit_next (emit_next (init_system two_decisions) 2) 1) true 2.

Lemma sched_1_then_2_reachable :
  reachable (init_system two_decisions) sched_1_then_2.
Proof.
  eapply reach_step; [|apply write_next_step].
  eapply reach_step; [|apply emit_next_step; vm_compute; congruence].
  eapply reach_step; [|apply emit_next_step; vm_compute; congruence].
  apply reach_refl.
Qed.

Lemma sched_2_then_1_reachable :
  reachable (init_system two_decisions) sched_2_then_1.
Proof.
  eapply reach_step; [|apply write_next_step].
  eapply reach_step; [|apply emit_next_step; vm_compute; congruence].
  eapply reach_step; [|apply emit_next_step; vm_compute; congruence].
  apply reach_refl.
Qed.

(** C8. Within one correlation id, the decision trail read back from the
    indexed store is always a prefix of that decision's emission sequence,
    whatever the interleaving of callers and writer batches; that sequence
    is SignalGenerated, RiskChecked, ExplainCreated, Decision and then the
    order events; across correlation ids no order holds: both orders of
    two decisions' first events are reachable. *)
Theorem audit_order_per_correlation_id :
  (forall (p0 : nat -> list AuditEvent) (s : System) (c : nat),
     (forall c' e, In e (p0 c') -> ev_correlation_id e = c') ->
     reachable (init_system p0) s ->
     exists rest, get_decision_trail c (store s) ++ rest = p0 c) /\
  (forall cfg rules tpls sig rs pre cid now os,
     map ev_type (lifecycle cfg rules tpls sig rs pre cid now os) =
       [SignalGenerated; RiskCheckedEv; ExplainCreatedEv; DecisionEv] ++
       map (fun o => order_event_type (oc_status o)) os) /\
  (exists s1 s2 e1 e2,
     reachable (init_system two_decisions) s1 /\
     reachable (init_system two_decisions) s2 /\
     ev_correlation_id e1 = 1 /\ ev_correlation_id e2 = 2 /\
     indexed (store s1) = [e1; e2] /\ indexed (store s2) = [e2; e1]).
Proof.
  split; [|split].
  - intros p0 s c Htag Hreach.
    assert (Hinv : trail_invariant p0 s).
    { induction Hreach as [|s1 s2 _ IH Hstep].
      - apply trail_invariant_init; exact Htag.
      - exact (trail_invariant_step p0 s1 s2 IH Hstep). }
    destruct (Hinv c) as [_ Heq].
    exists (cid_filter c (queue (store s)) ++ pending s c).
    unfold cid_filter in Heq; rewrite filter_app, <- app_assoc in Heq.
    exact Heq.
  - intros; apply lifecycle_spec.
  - exists sched_1_then_2, sched_2_then_1,
      (mk_event 1 0 0 "BTCUSDT" SignalGenerated (PSignal sig_btc)),
      (mk_event 2 0 0 "BTCUSDT" SignalGenerated (PSignal sig_btc)).
    split; [exact sched_1_then_2_reachable|].
    split; [exact sched_2_then_1_reachable|].
    split; [reflexivity|split; [reflexivity|split; vm_compute; reflexivity]].
Qed.

(** ** Witnesses: the theorems applied to the scenarios *)

Lemma decide_approved_no_block_witness :
  Forall rule_wf (default_rules (default_config 0)) /\
  d_approved (fst (decide_core (default_config 0) (default_rules (default_config 0))
                     [trend_template] sig_btc rs_ok None 1 0)) = true /\
  forall v, In v (rc_verdicts (risk_evaluate (default_rules (default_config 0))
                                 (mk_context sig_btc rs_ok 1))) ->
    severity_rank (rv_severity v) < severity_rank BLOCK.
Proof.
  assert (Hwf := default_rules_wf (default_config 0)).
  assert (Happ : d_approved (fst (decide_core (default_config 0) (default_rules (default_config 0))
                     [trend_template] sig_btc rs_ok None 1 0)) = true)
    by (vm_compute; reflexivity).
  split; [exact Hwf|]. split; [exact Happ|].
  intros v Hv.
  apply (decide_approved_no_block (default_config 0) (default_rules (default_config 0))
           [trend_template] sig_btc rs_ok None 1 0 Hwf Happ
           (mk_event 1 1 0 "BTCUSDT" RiskCheckedEv
              (PRisk (risk_evaluate (default_rules (default_config 0)) (mk_context sig_btc rs_ok 1))))
           (risk_evaluate (default_rules (default_config 0)) (mk_context sig_btc rs_ok 1)));
    [vm_compute; auto | reflexivity | exact Hv].
Defined.

Lemma risk_evaluate_most_restrictive_wins_witness :
  default_rules (default_config 0) <> [] /\
  exists w, rc_most_restrictive (risk_evaluate (default_rules (default_config 0))
                                   (mk_context sig_btc rs_slippage 1)) = Some w /\
            rv_passed w = false.
Proof.
  assert (Hne : default_rules (default_config 0) <> []) by discriminate.
  split; [exact Hne|].
  destruct (risk_evaluate_most_restrictive_wins (default_rules (default_config 0))
              (mk_context sig_btc rs_slippage 1) Hne)
    as [_ [_ [w [pre [post [Hmr [_ [Hfail _]]]]]]]].
  exists w; split; [exact Hmr|].
  apply Hfail.
  exists (threshold_verdict "max_slippage_bps" WARNING false "slippage above maximum" 5 9).
  split; [vm_compute; auto 6 | reflexivity].
Defined.

Lemma decide_rule_failure_fail_closed_witness :
  In broken_rule (broken_rule :: default_rules (default_config 0)) /\
  evaluate broken_rule (mk_context sig_btc rs_ok 1) = Raise "ZeroDivisionError" /\
  d_approved (fst (decide (default_config 0) (broken_rule :: default_rules (default_config 0))
                     [trend_template] sig_btc rs_ok None 1 0 empty_store)) = false.
Proof.
  assert (Hr : In broken_rule (broken_rule :: default_rules (default_config 0)))
    by (left; reflexivity).
  assert (He : evaluate broken_rule (mk_context sig_btc rs_ok 1) = Raise "ZeroDivisionError")
    by reflexivity.
  split; [exact Hr|]. split; [exact He|].
  destruct (decide_rule_failure_fail_closed (default_config 0)
              (broken_rule :: default_rules (default_config 0)) [trend_template]
              sig_btc rs_ok None 1 0 empty_store broken_rule "ZeroDivisionError" Hr He)
    as [_ [_ [_ [_ [_ [Happ _]]]]]].
  exact Happ.
Defined.

Lemma decide_leverage_above_cap_witness :
  (leverage_cap (default_config 0) < leverage rs_high_leverage)%Q /\
  d_approved (fst (decide_core (default_config 0) (default_rules (default_config 0))
                     [trend_template] sig_btc rs_high_leverage None 2 0)) = false.
Proof.
  assert (Hlt : (leverage_cap (default_config 0) < leverage rs_high_leverage)%Q)
    by (vm_compute; reflexivity).
  split; [exact Hlt|].
  exact (proj1 (decide_leverage_above_cap (default_config 0) [trend_template] sig_btc
                  rs_high_leverage None 2 0 Hlt)).
Defined.

Lemma decide_cooldown_reached_witness :
  consecutive_loss_cooldown (default_config 0) <= consecutive_losses rs_cooldown /\
  d_approved (fst (decide_core (default_config 0) (default_rules (default_config 0))
                     [trend_template] sig_btc rs_cooldown None 3 0)) = false.
Proof.
  assert (Hge : consecutive_loss_cooldown (default_config 0) <= consecutive_losses rs_cooldown)
    by (simpl; lia).
  split; [exact Hge|].
  exact (proj1 (decide_cooldown_reached (default_config 0) [trend_template] sig_btc
                  rs_cooldown None 3 0 Hge)).
Defined.

Lemma decide_slippage_warning_only_witness :
  d_approved (fst (decide (default_config 0) (default_rules (default_config 0)) [trend_template]
                     sig_btc rs_slippage None 4 0 empty_store)) = true.
Proof.
  apply (decide_slippage_warning_only (default_config 0) [trend_template] sig_btc rs_slippage
           None 4 0 empty_store
           (mk_explain (default_config 0) "trend_atr_v2" "trend up, ATR expanded" (4 # 5))).
  - vm_compute; reflexivity.
  - apply Qle_bool_iff; reflexivity.
  - apply Qle_bool_iff; reflexivity.
  - apply Qle_bool_iff; reflexivity.
  - simpl; lia.
  - intros v Hv; discriminate Hv.
  - vm_compute; reflexivity.
Defined.

Lemma generate_fallback_persisted_witness :
  (forall t, In t [range_template] -> applies t (mk_context sig_btc rs_ok 5) = Ok false) /\
  ex_quality_score (fallback_explain (default_config 0)) = 0%Q.
Proof.
  assert (H : forall t, In t [range_template] -> applies t (mk_context sig_btc rs_ok 5) = Ok false)
    by (intros t [<-|[]]; reflexivity).
  split; [exact H|].
  destruct (generate_fallback_persisted (default_config 0) (default_rules (default_config 0))
              [range_template] sig_btc rs_ok None 5 0 empty_store H)
    as [_ [_ [_ [Hq _]]]].
  exact Hq.
Defined.

Lemma audit_order_per_correlation_id_witness :
  (forall c e, In e (two_decisions c) -> ev_correlation_id e = c) /\
  reachable (init_system two_decisions) sched_2_then_1 /\
  exists rest, get_decision_trail 1 (store sched_2_then_1) ++ rest = two_decisions 1.
Proof.
  split; [exact two_decisions_tagged|].
  split; [exact sched_2_then_1_reachable|].
  exact (proj1 audit_order_per_correlation_id two_decisions sched_2_then_1 1
           two_decisions_tagged sched_2_then_1_reachable).
Defined.

Lemma reconciliation_invariant_witness :
  reachable (init_system two_decisions) sched_1_then_2 /\
  seq_count 0 (store sched_1_then_2) = indexed_count 0 (store sched_1_then_2).
Proof.
  split; [exact sched_1_then_2_reachable|].
  exact (reconciliation_invariant two_decisions sched_1_then_2 sched_1_then_2_reachable 0%N).
Defined.
